(** * notary-gcr: the TrustedGcrRepository adapter (pkg/gcr/gcr.go)

    The adapter forwards every operation to a collaborator (the registry
    client, the trust client, the configuration loader) and logs the error
    it gets back.  The collaborators are not part of gcr.go, so the adapter
    is embedded as a program over a signature of collaborator calls; running
    a program against a handler yields the value returned to the caller, the
    world left behind and the trace of calls and log lines. *)

From Stdlib Require Import String ZArith List Bool.
From stdpp Require Import base option list gmap strings fin_maps.

Local Open Scope string_scope.
Local Open Scope list_scope.

(** ** Data model *)

(** A Go interface or pointer value: nil, or a dynamic value. *)
Definition iface (A : Type) : Type := option A.

(** name.Reference: the repository (Context) and the tag or digest
    (Identifier) it names. *)
Record Reference : Type := mkReference {
  ref_context : string;
  ref_identifier : string
}.

(** authn.Authenticator: an opaque credential provider. *)
Record Authenticator : Type := mkAuthenticator {
  auth_token : string
}.

(** v1.Image, as far as the adapter's collaborators look at it: the content
    digest and the size. *)
Record Image : Type := mkImage {
  img_digest : string;
  img_size : Z
}.

(** client.Target: Name, Hashes and Length. *)
Record Target : Type := mkTarget {
  target_name : string;
  target_hashes : string;
  target_length : Z
}.

(** Modelled from the spec: trust.Config is declared in the trust package,
    which is not among the sources.  Section 3 of the spec gives its
    contents: the trust-service server URL, the local trust-cache directory
    and a passphrase-retrieval strategy mapping a key role to a passphrase
    (None when the retriever declines). *)
Record Config : Type := mkConfig {
  cfg_server : string;
  cfg_trust_dir : string;
  cfg_passphrase : string -> option string
}.

(** Modelled from the spec: the error taxonomy of section 7. *)
Inductive ErrKind : Type :=
| ConfigError
| RegistryPushError
| RegistryPullError
| TrustUnavailable
| NoTrustData
| NotTrusted
| TrustPublishError
| SigningError.

(** Go's error values: a base error, or an error wrapping a cause with a
    context message.  A nil error is [None : option error]. *)
Inductive error : Type :=
| errors_New (kind : ErrKind)
| errors_Wrap (context : string) (cause : error).

#[global] Instance ErrKind_eq_dec : EqDecision ErrKind.
Proof. solve_decision. Defined.

#[global] Instance error_eq_dec : EqDecision error.
Proof. solve_decision. Defined.

(** type TrustedGcrRepository struct (gcr.go:12-17). *)
Record TrustedGcrRepository : Type := mkRepo {
  ref : iface Reference;
  registryAuth : iface Authenticator;
  notaryAuth : iface Authenticator;
  config : iface Config
}.

(** The composite literal [TrustedGcrRepository{}]: every field nil. *)
Definition TrustedGcrRepository_zero : TrustedGcrRepository :=
  mkRepo None None None None.

(** ** Collaborator calls

    One constructor per function the adapter delegates to, indexed by the
    Go result type: [(T, error)] is a pair, a lone [error] is
    [option error]. *)
Inductive Call : Type -> Type :=
| trust_ParseConfig (configDir : string)
  : Call (iface Config * option error)
| listTargets (r : iface Reference) (auth : iface Authenticator)
    (c : iface Config)
  : Call (list Target * option error)
| pushImage (r : iface Reference) (img : iface Image)
    (auth : iface Authenticator)
  : Call (option error)
| pushTrustedReference (r : iface Reference) (img : iface Image)
    (auth : iface Authenticator) (c : iface Config)
  : Call (option error)
| getTrustedTarget (r : iface Reference) (auth : iface Authenticator)
    (c : iface Config)
  : Call (iface Target * option error)
| signImage (r : iface Reference) (img : iface Image)
    (auth : iface Authenticator) (c : iface Config)
  : Call (option error)
| revokeImage (r : iface Reference) (tag : string)
    (auth : iface Authenticator) (c : iface Config)
  : Call (option error).

(** The collaborator a call goes to (spec, section 6). *)
Inductive Collaborator : Type :=
| Configuration
| Registry
| TrustService.

Definition collaborator_of {X : Type} (c : Call X) : Collaborator :=
  match c with
  | trust_ParseConfig _ => Configuration
  | pushImage _ _ _ => Registry
  | listTargets _ _ _
  | pushTrustedReference _ _ _ _
  | getTrustedTarget _ _ _
  | signImage _ _ _ _
  | revokeImage _ _ _ _ => TrustService
  end.

(** The authenticator argument of a call, when it has one. *)
Definition auth_of {X : Type} (c : Call X) : option (iface Authenticator) :=
  match c with
  | trust_ParseConfig _ => None
  | listTargets _ a _
  | pushImage _ _ a
  | pushTrustedReference _ _ a _
  | getTrustedTarget _ a _
  | signImage _ _ a _
  | revokeImage _ _ a _ => Some a
  end.

(** The reference argument of a call, when it has one. *)
Definition ref_of {X : Type} (c : Call X) : option (iface Reference) :=
  match c with
  | trust_ParseConfig _ => None
  | listTargets r _ _
  | pushImage r _ _
  | pushTrustedReference r _ _ _
  | getTrustedTarget r _ _
  | signImage r _ _ _
  | revokeImage r _ _ _ => Some r
  end.

(** The error component of a call's response. *)
Definition response_error {X : Type} (c : Call X) : X -> option error :=
  match c in Call T return T -> option error with
  | trust_ParseConfig _ => snd
  | listTargets _ _ _ => snd
  | pushImage _ _ _ => fun e => e
  | pushTrustedReference _ _ _ _ => fun e => e
  | getTrustedTarget _ _ _ => snd
  | signImage _ _ _ _ => fun e => e
  | revokeImage _ _ _ _ => fun e => e
  end.

(** ** Programs

    [Prog S R] is a Go function body returning [R].  [S] is the object
    behind a pointer receiver, which the body may read ([Load]) and assign
    ([Store]); a plain function has [S = unit]. *)
Inductive Prog (S R : Type) : Type :=
| Ret (r : R)
| Load (k : S -> Prog S R)
| Store (s : S) (k : Prog S R)
| Do {X : Type} (c : Call X) (k : X -> Prog S R)
| log_Errorf (format : string) (err : error) (k : Prog S R).

Arguments Ret {S R} r.
Arguments Load {S R} k.
Arguments Store {S R} s k.
Arguments Do {S R X} c k.
Arguments log_Errorf {S R} format err k.

Notation "'let*' x ':=' c 'in' k" := (Do c (fun x => k))
  (at level 10, x pattern, c at level 100, k at level 200).
Notation "'let*' 'this' x 'in' k" := (Load (fun x => k))
  (at level 10, x name, k at level 200).

(** What a run leaves in the trace. *)
Inductive Event : Type :=
| Called {X : Type} (c : Call X) (x : X)
| Logged (format : string) (err : error).

Record Outcome (S W R : Type) : Type := mkOutcome {
  result : R;
  self : S;
  world : W;
  trace : list Event
}.

Arguments mkOutcome {S W R} result self world trace.
Arguments result {S W R} o.
Arguments self {S W R} o.
Arguments world {S W R} o.
Arguments trace {S W R} o.

Definition emit {S W R : Type} (ev : Event) (o : Outcome S W R)
  : Outcome S W R :=
  mkOutcome (result o) (self o) (world o) (ev :: trace o).

(** A handler answers each collaborator call from the state of the outside
    world and leaves a new state. *)
Definition Handler (W : Type) : Type := forall X : Type, Call X -> W -> X * W.

Fixpoint run {S W R : Type} (h : Handler W) (p : Prog S R) (s : S) (w : W)
  : Outcome S W R :=
  match p with
  | Ret r => mkOutcome r s w []
  | Load k => run h (k s) s w
  | Store s' k => run h k s' w
  | Do c k =>
      let '(x, w') := h _ c w in
      emit (Called c x) (run h (k x) s w')
  | log_Errorf format err k =>
      emit (Logged format err) (run h k s w)
  end.

(** ** The adapter (gcr.go) *)

(** func NewTrustedGcrRepository (gcr.go:19-26). *)
Definition NewTrustedGcrRepository (configDir : string)
    (r : iface Reference) (registryAuth notaryAuth : iface Authenticator)
  : Prog unit (TrustedGcrRepository * option error) :=
  let* (config, err) := trust_ParseConfig configDir in
  match err with
  | Some e =>
      log_Errorf "failed to parse config: %s" e
        (Ret (TrustedGcrRepository_zero, Some e))
  | None => Ret (mkRepo r registryAuth notaryAuth config, None)
  end.

(** func (repo *TrustedGcrRepository) ListTarget (gcr.go:28-35). *)
Definition ListTarget
  : Prog TrustedGcrRepository (list Target * option error) :=
  let* this repo in
  let* (targets, err) :=
    listTargets (ref repo) (notaryAuth repo) (config repo) in
  match err with
  | Some e =>
      log_Errorf "failed to list targets: %s" e (Ret ([], Some e))
  | None => Ret (targets, None)
  end.

(** func (repo *TrustedGcrRepository) TrustPush (gcr.go:37-44). *)
Definition TrustPush (img : iface Image)
  : Prog TrustedGcrRepository (option error) :=
  let* this repo in
  let* err := pushImage (ref repo) img (registryAuth repo) in
  match err with
  | Some e => log_Errorf "failed to push image: %s" e (Ret (Some e))
  | None =>
      let* err2 :=
        pushTrustedReference (ref repo) img (notaryAuth repo) (config repo) in
      Ret err2
  end.

(** func (repo *TrustedGcrRepository) Verify (gcr.go:46-53). *)
Definition Verify
  : Prog TrustedGcrRepository (iface Target * option error) :=
  let* this repo in
  let* (target, err) :=
    getTrustedTarget (ref repo) (notaryAuth repo) (config repo) in
  match err with
  | Some e =>
      log_Errorf "failed to verify repository: %s" e (Ret (None, Some e))
  | None => Ret (target, None)
  end.

(** func (repo *TrustedGcrRepository) SignImage (gcr.go:55-62). *)
Definition SignImage (img : iface Image)
  : Prog TrustedGcrRepository (option error) :=
  let* this repo in
  let* err := signImage (ref repo) img (notaryAuth repo) (config repo) in
  match err with
  | Some e => log_Errorf "failed to sign image: %s" e (Ret (Some e))
  | None => Ret None
  end.

(** func (repo *TrustedGcrRepository) RevokeTag (gcr.go:64-71). *)
Definition RevokeTag (tag : string)
  : Prog TrustedGcrRepository (option error) :=
  let* this repo in
  let* err := revokeImage (ref repo) tag (notaryAuth repo) (config repo) in
  match err with
  | Some e =>
      log_Errorf "failed to revoke trusted repository: %s" e (Ret (Some e))
  | None => Ret None
  end.

(** ** Reading a trace *)

Definition Collaborator_eqb (a b : Collaborator) : bool :=
  match a, b with
  | Configuration, Configuration => true
  | Registry, Registry => true
  | TrustService, TrustService => true
  | _, _ => false
  end.

(** Is the event a call to the given collaborator? *)
Definition calls (co : Collaborator) (ev : Event) : bool :=
  match ev with
  | Called c _ => Collaborator_eqb (collaborator_of c) co
  | Logged _ _ => false
  end.

(** The error a call event came back with; nil for a log line. *)
Definition event_error (ev : Event) : option error :=
  match ev with
  | Called c x => response_error c x
  | Logged _ _ => None
  end.

(** The log lines of a trace, in order. *)
Fixpoint logs (tr : list Event) : list (string * error) :=
  match tr with
  | [] => []
  | Called _ _ :: tr' => logs tr'
  | Logged format err :: tr' => (format, err) :: logs tr'
  end.

(** How many log lines of a trace report the error [e]. *)
Definition logged_times (e : error) (tr : list Event) : nat :=
  length (filter (fun l : string * error => snd l = e) (logs tr)).


(** The propagation policy in the spec's words (section 7): the error
    handed to the caller wraps the collaborator's error. *)
Fixpoint wraps (returned cause : error) : Prop :=
  match returned with
  | errors_New _ => False
  | errors_Wrap _ inner => inner = cause \/ wraps inner cause
  end.

(** ... and every collaborator error of the run is returned wrapped and is
    logged exactly once. *)
Definition wrapped_and_logged_once {S W R : Type}
    (err_of : R -> option error) (o : Outcome S W R) : Prop :=
  forall ev e, In ev (trace o) -> event_error ev = Some e ->
    (exists e', err_of (result o) = Some e' /\ wraps e' e) /\
    logged_times e (trace o) = 1.

(** ** The collaborators, from the spec

    pushImage, pushTrustedReference, listTargets, getTrustedTarget,
    signImage and revokeImage (package gcr) and trust.ParseConfig are
    called by gcr.go but their files are not among the sources.  The
    definitions of this part follow sections 4.1, 6 and 7 of the spec. *)

(** Modelled from the spec: what trust.ParseConfig finds at a directory
    path (section 4.1, Construction): a directory that is present is
    unreadable, malformed, or holds a configuration. *)
Inductive DirState : Type :=
| DirUnreadable
| DirMalformed
| DirConfig (c : Config).

(** Modelled from the spec: the state of the outside world the
    collaborators act on.  The registry stores images by repository and
    identifier.  The trust service holds, per repository, the signed
    targets by tag; a repository without an entry has never had trust
    metadata published.  Each service is reachable or not and accepts its
    own credentials (section 3, Invariant); signing needs a usable
    targets-role key (section 4.1, Sign). *)
Record World : Type := mkWorld {
  dirs : gmap string DirState;
  reg_reachable : bool;
  reg_accepts : Authenticator -> bool;
  reg_images : gmap (string * string) Image;
  trust_reachable : bool;
  trust_accepts : Authenticator -> bool;
  trust_key_usable : bool;
  trust_meta : gmap string (gmap string Target)
}.

Definition set_reg_images (m : gmap (string * string) Image) (w : World)
  : World :=
  mkWorld (dirs w) (reg_reachable w) (reg_accepts w) m
    (trust_reachable w) (trust_accepts w) (trust_key_usable w) (trust_meta w).

Definition set_trust_meta (m : gmap string (gmap string Target)) (w : World)
  : World :=
  mkWorld (dirs w) (reg_reachable w) (reg_accepts w) (reg_images w)
    (trust_reachable w) (trust_accepts w) (trust_key_usable w) m.

(** Modelled from the spec: a service authenticates a request only with a
    credential it accepts; a nil authenticator carries none. *)
Definition authenticates (accepts : Authenticator -> bool)
    (auth : iface Authenticator) : bool :=
  match auth with
  | Some a => accepts a
  | None => false
  end.

(** Modelled from the spec: the trust service answers a request when it is
    reachable and authenticates the caller. *)
Definition trust_answers (auth : iface Authenticator) (w : World) : bool :=
  trust_reachable w && authenticates (trust_accepts w) auth.

(** Modelled from the spec: signing (section 4.1, Sign) needs a usable
    targets-role key and a passphrase from the configured retriever. *)
Definition can_sign (c : Config) (w : World) : bool :=
  trust_key_usable w &&
  match cfg_passphrase c "targets" with
  | Some _ => true
  | None => false
  end.

(** Modelled from the spec: the Target of an image under a reference: the
    reference's tag, the image's content digest and its size. *)
Definition target_of (r : Reference) (i : Image) : Target :=
  mkTarget (ref_identifier r) (img_digest i) (img_size i).

(** Modelled from the spec: the targets published for a repository. *)
Definition targets_of (w : World) (repository : string)
  : gmap string Target :=
  default ∅ (trust_meta w !! repository).

(** Modelled from the spec: the Target currently bound to a tag of a
    repository in the trust metadata. *)
Definition bound_target (w : World) (repository tag : string)
  : option Target :=
  trust_meta w !! repository ≫= fun ts => ts !! tag.

(** Modelled from the spec: adding or updating the Target entry of the
    reference's tag (Push phase (b), Sign). *)
Definition add_target (r : Reference) (i : Image) (w : World) : World :=
  set_trust_meta
    (<[ref_context r :=
         <[ref_identifier r := target_of r i]>
           (targets_of w (ref_context r))]> (trust_meta w)) w.

(** Modelled from the spec: removing the Target entry of a tag (Revoke);
    the remaining target set stays published. *)
Definition remove_target (repository tag : string) (w : World) : World :=
  set_trust_meta
    (<[repository := delete tag (targets_of w repository)]> (trust_meta w)) w.

(** Modelled from the spec: ParseConfig(directory) (sections 4.1 and 6):
    ConfigError if the directory is missing, malformed or unreadable; no
    network I/O. *)
Definition spec_ParseConfig (configDir : string) (w : World)
  : (iface Config * option error) * World :=
  match dirs w !! configDir with
  | Some (DirConfig c) => ((Some c, None), w)
  | Some DirUnreadable | Some DirMalformed | None =>
      ((None, Some (errors_New ConfigError)), w)
  end.

(** Modelled from the spec: registry push(reference, image, authenticator)
    (section 4.1, Push phase (a)): transport and authentication failures
    are RegistryPushError (section 7).  The spec does not speak of nil
    arguments; a request without a reference, image or credential is
    taken to fail the same way. *)
Definition spec_pushImage (r : iface Reference) (img : iface Image)
    (auth : iface Authenticator) (w : World) : option error * World :=
  match r, img with
  | Some r', Some i =>
      if reg_reachable w && authenticates (reg_accepts w) auth
      then (None,
            set_reg_images
              (<[(ref_context r', ref_identifier r') := i]> (reg_images w)) w)
      else (Some (errors_New RegistryPushError), w)
  | _, _ => (Some (errors_New RegistryPushError), w)
  end.

(** Modelled from the spec: trust publish (section 4.1, Push phase (b)):
    compute digest and size and publish a new Target entry; every failure
    of the phase is TrustPublishError. *)
Definition spec_pushTrustedReference (r : iface Reference)
    (img : iface Image) (auth : iface Authenticator) (c : iface Config)
    (w : World) : option error * World :=
  match r, img, c with
  | Some r', Some i, Some cfg =>
      if trust_answers auth w && can_sign cfg w
      then (None, add_target r' i w)
      else (Some (errors_New TrustPublishError), w)
  | _, _, _ => (Some (errors_New TrustPublishError), w)
  end.

(** Modelled from the spec: listTargets (section 4.1, ListTargets):
    TrustUnavailable if the service cannot be reached, NoTrustData if
    nothing was ever published for the repository, else the targets
    (possibly none).  The spec names no error kind for a rejected trust
    credential or a nil argument; the service is then taken to be out of
    reach for the caller. *)
Definition spec_listTargets (r : iface Reference)
    (auth : iface Authenticator) (c : iface Config) (w : World)
  : (list Target * option error) * World :=
  match r, c with
  | Some r', Some _ =>
      if trust_answers auth w
      then match trust_meta w !! ref_context r' with
           | Some ts => ((snd <$> map_to_list ts, None), w)
           | None => (([], Some (errors_New NoTrustData)), w)
           end
      else (([], Some (errors_New TrustUnavailable)), w)
  | _, _ => (([], Some (errors_New TrustUnavailable)), w)
  end.

(** Modelled from the spec: getTrustedTarget (section 4.1, Verify): the
    Target bound to the reference's tag; NotTrusted if none matches,
    TrustUnavailable on transport failure. *)
Definition spec_getTrustedTarget (r : iface Reference)
    (auth : iface Authenticator) (c : iface Config) (w : World)
  : (iface Target * option error) * World :=
  match r, c with
  | Some r', Some _ =>
      if trust_answers auth w
      then match bound_target w (ref_context r') (ref_identifier r') with
           | Some t => ((Some t, None), w)
           | None => ((None, Some (errors_New NotTrusted)), w)
           end
      else ((None, Some (errors_New TrustUnavailable)), w)
  | _, _ => ((None, Some (errors_New TrustUnavailable)), w)
  end.

(** Modelled from the spec: sign (section 4.1, Sign): add or update the
    Target entry of the reference's tag; SigningError without a usable key
    or passphrase (or without an image to take the digest of). *)
Definition spec_signImage (r : iface Reference) (img : iface Image)
    (auth : iface Authenticator) (c : iface Config) (w : World)
  : option error * World :=
  match r, c with
  | Some r', Some cfg =>
      if trust_answers auth w
      then match img with
           | Some i =>
               if can_sign cfg w
               then (None, add_target r' i w)
               else (Some (errors_New SigningError), w)
           | None => (Some (errors_New SigningError), w)
           end
      else (Some (errors_New TrustUnavailable), w)
  | _, _ => (Some (errors_New TrustUnavailable), w)
  end.

(** Modelled from the spec: revoke (section 4.1, Revoke): remove the
    Target entry of [tag] and re-sign the rest; NotTrusted if the tag had
    no target, SigningError if re-signing fails. *)
Definition spec_revokeImage (r : iface Reference) (tag : string)
    (auth : iface Authenticator) (c : iface Config) (w : World)
  : option error * World :=
  match r, c with
  | Some r', Some cfg =>
      if trust_answers auth w
      then match bound_target w (ref_context r') tag with
           | Some _ =>
               if can_sign cfg w
               then (None, remove_target (ref_context r') tag w)
               else (Some (errors_New SigningError), w)
           | None => (Some (errors_New NotTrusted), w)
           end
      else (Some (errors_New TrustUnavailable), w)
  | _, _ => (Some (errors_New TrustUnavailable), w)
  end.

(** Modelled from the spec: the collaborators of section 6 as one handler. *)
Definition spec_handler : Handler World :=
  fun X c =>
    match c in Call T return World -> T * World with
    | trust_ParseConfig configDir => spec_ParseConfig configDir
    | listTargets r auth cfg => spec_listTargets r auth cfg
    | pushImage r img auth => spec_pushImage r img auth
    | pushTrustedReference r img auth cfg =>
        spec_pushTrustedReference r img auth cfg
    | getTrustedTarget r auth cfg => spec_getTrustedTarget r auth cfg
    | signImage r img auth cfg => spec_signImage r img auth cfg
    | revokeImage r tag auth cfg => spec_revokeImage r tag auth cfg
    end.

(** ** Properties stated over traces *)

(** The configuration argument of a call, when it has one. *)
Definition config_of {X : Type} (c : Call X) : option (iface Config) :=
  match c with
  | trust_ParseConfig _ | pushImage _ _ _ => None
  | listTargets _ _ cfg
  | pushTrustedReference _ _ _ cfg
  | getTrustedTarget _ _ cfg
  | signImage _ _ _ cfg
  | revokeImage _ _ _ cfg => Some cfg
  end.

(** Every collaborator error of the run reaches the caller: the operation
    returns that error, not nil. *)
Definition reports_failures {S W R : Type} (err_of : R -> option error)
    (o : Outcome S W R) : Prop :=
  forall ev e, In ev (trace o) -> event_error ev = Some e ->
    err_of (result o) = Some e.

(** The reference, authenticator and configuration a call is given are
    fields of the adapter. *)
Definition from_fields (repo : TrustedGcrRepository) (ev : Event) : Prop :=
  match ev with
  | Called c _ =>
      (forall r, ref_of c = Some r -> r = ref repo) /\
      (forall a, auth_of c = Some a ->
         a = registryAuth repo \/ a = notaryAuth repo) /\
      (forall cfg, config_of c = Some cfg -> cfg = config repo)
  | Logged _ _ => True
  end.

(** ** A concrete world *)

Definition sample_ref : Reference := mkReference "gcr.io/project/app" "v1".
Definition registry_cred : Authenticator := mkAuthenticator "registry-token".
Definition notary_cred : Authenticator := mkAuthenticator "notary-token".
Definition sample_config : Config :=
  mkConfig "https://notary.example" "/trust" (fun _ => Some "passphrase").
Definition sample_image : Image := mkImage "sha256:aaa" 1024.

Definition sample_repo : TrustedGcrRepository :=
  mkRepo (Some sample_ref) (Some registry_cred) (Some notary_cred)
    (Some sample_config).

(** The same adapter with the two credentials interchanged. *)
Definition swapped_repo : TrustedGcrRepository :=
  mkRepo (Some sample_ref) (Some notary_cred) (Some registry_cred)
    (Some sample_config).

(** Both services are up, each accepts its own credential, a configuration
    sits at /etc/notary, and nothing was ever pushed or signed. *)
Definition fresh_world : World :=
  mkWorld {[ "/etc/notary" := DirConfig sample_config ]}
    true (fun a => String.eqb (auth_token a) "registry-token") ∅
    true (fun a => String.eqb (auth_token a) "notary-token") true ∅.

(** The fresh world with the registry down. *)
Definition registry_down : World :=
  mkWorld (dirs fresh_world) false (reg_accepts fresh_world) ∅
    true (trust_accepts fresh_world) true ∅.

(** The fresh world with no usable signing key. *)
Definition no_signing_key : World :=
  mkWorld (dirs fresh_world) true (reg_accepts fresh_world) ∅
    true (trust_accepts fresh_world) false ∅.

(** The fresh world after the sample image was signed under tag v1. *)
Definition signed_world : World := add_target sample_ref sample_image fresh_world.

(** A world in which both services are up and accept whatever credential
    they are shown (one account serving the registry and the trust
    service alike). *)
Definition lenient_world : World :=
  mkWorld (dirs fresh_world) true (fun _ => true) ∅
    true (fun _ => true) true ∅.

(** The adapter [repo] with its two authenticators substituted for one
    another. *)
Definition interchanged (repo : TrustedGcrRepository) : TrustedGcrRepository :=
  mkRepo (ref repo) (notaryAuth repo) (registryAuth repo) (config repo).


(** ** Collaborator calls of a trace *)

(** Is the event a collaborator call (and not a log line)? *)
Definition is_call (ev : Event) : bool :=
  match ev with
  | Called _ _ => true
  | Logged _ _ => false
  end.

(** The collaborator calls of a trace, in order. *)
Definition collaborator_calls (tr : list Event) : list Event :=
  List.filter is_call tr.

(** The error an operation returns was returned by one of its
    collaborator calls. *)
Definition error_from_collaborator {S W R : Type}
    (err_of : R -> option error) (o : Outcome S W R) : Prop :=
  forall e, err_of (result o) = Some e ->
    exists ev, In ev (trace o) /\ is_call ev = true /\ event_error ev = Some e.

(** Every log line of the run reports the error the operation returns. *)
Definition logs_returned_error {S W R : Type}
    (err_of : R -> option error) (o : Outcome S W R) : Prop :=
  forall format e, In (format, e) (logs (trace o)) ->
    err_of (result o) = Some e.

(** ** The role recorder of the tests (sign_test_go) *)

(** Go's builtin [copy(dst, src)]: overwrites the first
    [min(len(dst), len(src))] elements of [dst] with those of [src] and
    returns their number. *)
Definition go_copy {A : Type} (dst src : list A) : list A * nat :=
  let n := Nat.min (length dst) (length src) in
  (firstn n src ++ skipn n dst, n).

(** sort.Stable on a sort.StringSlice: ascending by [<] on strings, equal
    elements keeping their order. *)
Fixpoint insert_sorted (x : string) (l : list string) : list string :=
  match l with
  | [] => [x]
  | y :: l' =>
      if String.ltb x y then x :: y :: l' else y :: insert_sorted x l'
  end.

Definition sort_Stable (l : list string) : list string :=
  fold_left (fun sorted x => insert_sorted x sorted) l [].

Module SignTest.

(** const password (sign_test_go:30). *)
Definition password : string := "passphrase".

(** type passRoleRecorder struct (sign_test_go:32-35). *)
Record passRoleRecorder : Type := mkRecorder {
  rolesCreated : list string;
  rolesAsked : list string
}.

(** func newRoleRecorder (sign_test_go:37-39). *)
Definition newRoleRecorder : passRoleRecorder := mkRecorder [] [].

(** func (p *passRoleRecorder) clear (sign_test_go:41-44). *)
Definition clear (p : passRoleRecorder) : passRoleRecorder :=
  mkRecorder [] [].

(** func (p *passRoleRecorder) retriever (sign_test_go:46-53): the answer
    (passphrase, give up, error) and the recorder afterwards. *)
Definition retriever (p : passRoleRecorder) (keyName alias : string)
    (createNew : bool) (attempts : Z)
  : (string * bool * option error) * passRoleRecorder :=
  let p' :=
    if createNew
    then mkRecorder (rolesCreated p ++ [alias]) (rolesAsked p)
    else mkRecorder (rolesCreated p) (rolesAsked p ++ [alias]) in
  ((password, false, None), p').

(** One passphrase request: key name, alias, createNew, attempts. *)
Record Request : Type := mkRequest {
  req_keyName : string;
  req_alias : string;
  req_createNew : bool;
  req_attempts : Z
}.

(** The recorder after a sequence of requests, with the answers given. *)
Fixpoint serve (p : passRoleRecorder) (reqs : list Request)
  : list (string * bool * option error) * passRoleRecorder :=
  match reqs with
  | [] => ([], p)
  | q :: reqs' =>
      let '(answer, p1) :=
        retriever p (req_keyName q) (req_alias q) (req_createNew q)
          (req_attempts q) in
      let '(answers, p2) := serve p1 reqs' in
      (answer :: answers, p2)
  end.

(** What compareRolesRecorded leaves behind: the two slices it hands to
    the equality check, and the caller's slice and the recorder as the
    two [copy] calls left them. *)
Record Comparison : Type := mkComparison {
  cmp_useExpected : list string;
  cmp_actual : list string;
  cmp_expected : list string;
  cmp_recorder : passRoleRecorder
}.

(** func (p *passRoleRecorder) compareRolesRecorded
    (sign_test_go:55-71), up to the call of the equality check. *)
Definition compareRolesRecorded (p : passRoleRecorder)
    (expected : list string) (created : bool) : Comparison :=
  let actual : list string := [] in
  let useExpected : list string := [] in
  let expected := fst (go_copy expected useExpected) in
  let useExpected := sort_Stable useExpected in
  let p :=
    if created
    then mkRecorder (fst (go_copy (rolesCreated p) actual)) (rolesAsked p)
    else mkRecorder (rolesCreated p) (fst (go_copy (rolesAsked p) actual)) in
  let actual := sort_Stable actual in
  mkComparison useExpected actual expected p.

(** func (p *passRoleRecorder) requireCreated (sign_test_go:74-76). *)
Definition requireCreated (p : passRoleRecorder) (expected : list string)
  : Comparison :=
  compareRolesRecorded p expected true.

(** func (p *passRoleRecorder) requireAsked (sign_test_go:79-81). *)
Definition requireAsked (p : passRoleRecorder) (expected : list string)
  : Comparison :=
  compareRolesRecorded p expected false.

End SignTest.

(** ** Proof automation for explicit traces *)

(** Walks through the events of a short, explicit trace. *)
Ltac each_event Hin :=
  simpl in Hin;
  repeat (destruct Hin as [<- | Hin]; [simpl in * | ]);
  try contradiction; try congruence; try discriminate.

(** Checks [from_fields] on each event of a short, explicit trace. *)
Ltac all_from_fields :=
  repeat match goal with |- Forall _ _ => constructor end;
  simpl; try exact I;
  (split; [|split]); intros ? [= <-]; auto.


(** ** The adapter against arbitrary collaborators *)

Section Adapter.

Context {W : Type} (h : Handler W).

Lemma run_NewTrustedGcrRepository configDir r ra na w cfg err w' :
  h _ (trust_ParseConfig configDir) w = ((cfg, err), w') ->
  run h (NewTrustedGcrRepository configDir r ra na) tt w =
  match err with
  | Some e =>
      mkOutcome (TrustedGcrRepository_zero, Some e) tt w'
        [Called (trust_ParseConfig configDir) (cfg, Some e);
         Logged "failed to parse config: %s" e]
  | None =>
      mkOutcome (mkRepo r ra na cfg, None) tt w'
        [Called (trust_ParseConfig configDir) (cfg, None)]
  end.
Proof.
  intros Hresp. unfold NewTrustedGcrRepository. simpl. rewrite Hresp.
  destruct err; reflexivity.
Qed.

Lemma run_ListTarget repo w targets err w' :
  h _ (listTargets (ref repo) (notaryAuth repo) (config repo)) w
    = ((targets, err), w') ->
  run h ListTarget repo w =
  match err with
  | Some e =>
      mkOutcome ([], Some e) repo w'
        [Called (listTargets (ref repo) (notaryAuth repo) (config repo))
           (targets, Some e);
         Logged "failed to list targets: %s" e]
  | None =>
      mkOutcome (targets, None) repo w'
        [Called (listTargets (ref repo) (notaryAuth repo) (config repo))
           (targets, None)]
  end.
Proof.
  intros Hresp. unfold ListTarget. simpl. rewrite Hresp.
  destruct err; reflexivity.
Qed.

Lemma run_TrustPush_failed repo img w e w' :
  h _ (pushImage (ref repo) img (registryAuth repo)) w = (Some e, w') ->
  run h (TrustPush img) repo w =
  mkOutcome (Some e) repo w'
    [Called (pushImage (ref repo) img (registryAuth repo)) (Some e);
     Logged "failed to push image: %s" e].
Proof.
  intros Hresp. unfold TrustPush. simpl. rewrite Hresp. reflexivity.
Qed.

Lemma run_TrustPush_pushed repo img w w1 err2 w2 :
  h _ (pushImage (ref repo) img (registryAuth repo)) w = (None, w1) ->
  h _ (pushTrustedReference (ref repo) img (notaryAuth repo) (config repo)) w1
    = (err2, w2) ->
  run h (TrustPush img) repo w =
  mkOutcome err2 repo w2
    [Called (pushImage (ref repo) img (registryAuth repo)) None;
     Called
       (pushTrustedReference (ref repo) img (notaryAuth repo) (config repo))
       err2].
Proof.
  intros Hpush Htrust. unfold TrustPush. simpl. rewrite Hpush. simpl.
  rewrite Htrust. reflexivity.
Qed.

Lemma run_Verify repo w target err w' :
  h _ (getTrustedTarget (ref repo) (notaryAuth repo) (config repo)) w
    = ((target, err), w') ->
  run h Verify repo w =
  match err with
  | Some e =>
      mkOutcome (None, Some e) repo w'
        [Called (getTrustedTarget (ref repo) (notaryAuth repo) (config repo))
           (target, Some e);
         Logged "failed to verify repository: %s" e]
  | None =>
      mkOutcome (target, None) repo w'
        [Called (getTrustedTarget (ref repo) (notaryAuth repo) (config repo))
           (target, None)]
  end.
Proof.
  intros Hresp. unfold Verify. simpl. rewrite Hresp.
  destruct err; reflexivity.
Qed.

Lemma run_SignImage repo img w err w' :
  h _ (signImage (ref repo) img (notaryAuth repo) (config repo)) w
    = (err, w') ->
  run h (SignImage img) repo w =
  match err with
  | Some e =>
      mkOutcome (Some e) repo w'
        [Called (signImage (ref repo) img (notaryAuth repo) (config repo))
           (Some e);
         Logged "failed to sign image: %s" e]
  | None =>
      mkOutcome None repo w'
        [Called (signImage (ref repo) img (notaryAuth repo) (config repo))
           None]
  end.
Proof.
  intros Hresp. unfold SignImage. simpl. rewrite Hresp.
  destruct err; reflexivity.
Qed.

Lemma run_RevokeTag repo tag w err w' :
  h _ (revokeImage (ref repo) tag (notaryAuth repo) (config repo)) w
    = (err, w') ->
  run h (RevokeTag tag) repo w =
  match err with
  | Some e =>
      mkOutcome (Some e) repo w'
        [Called (revokeImage (ref repo) tag (notaryAuth repo) (config repo))
           (Some e);
         Logged "failed to revoke trusted repository: %s" e]
  | None =>
      mkOutcome None repo w'
        [Called (revokeImage (ref repo) tag (notaryAuth repo) (config repo))
           None]
  end.
Proof.
  intros Hresp. unfold RevokeTag. simpl. rewrite Hresp.
  destruct err; reflexivity.
Qed.

End Adapter.

(** ** Construction *)

(** C10. If trust.ParseConfig fails, NewTrustedGcrRepository returns the
    zero-valued TrustedGcrRepository, whose four fields are all nil,
    together with the parse error; if it succeeds, the adapter returned
    holds the given reference, the two given authenticators and the parsed
    configuration, and the error is nil. *)
Theorem NewTrustedGcrRepository_all_or_nothing {W : Type} (h : Handler W)
    (configDir : string) (r : iface Reference)
    (ra na : iface Authenticator) (w : W) :
  let parsed := fst (h _ (trust_ParseConfig configDir) w) in
  let o := run h (NewTrustedGcrRepository configDir r ra na) tt w in
  (forall e, snd parsed = Some e ->
     result o = (TrustedGcrRepository_zero, Some e) /\
     ref (fst (result o)) = None /\
     registryAuth (fst (result o)) = None /\
     notaryAuth (fst (result o)) = None /\
     config (fst (result o)) = None) /\
  (snd parsed = None ->
     result o = (mkRepo r ra na (fst parsed), None) /\
     ref (fst (result o)) = r /\
     registryAuth (fst (result o)) = ra /\
     notaryAuth (fst (result o)) = na /\
     config (fst (result o)) = fst parsed).
Proof.
  intros parsed o. subst parsed o.
  destruct (h _ (trust_ParseConfig configDir) w) as [[cfg err] w'] eqn:Hresp.
  rewrite (run_NewTrustedGcrRepository h configDir r ra na w cfg err w' Hresp).
  simpl. split.
  - intros e ->. simpl. repeat split.
  - intros ->. simpl. repeat split.
Qed.

Lemma NewTrustedGcrRepository_all_or_nothing_witness :
  result (run spec_handler
            (NewTrustedGcrRepository "/missing" (Some sample_ref)
               (Some registry_cred) (Some notary_cred)) tt fresh_world)
    = (TrustedGcrRepository_zero, Some (errors_New ConfigError)) /\
  result (run spec_handler
            (NewTrustedGcrRepository "/etc/notary" (Some sample_ref)
               (Some registry_cred) (Some notary_cred)) tt fresh_world)
    = (sample_repo, None).
Proof.
  split.
  - apply (proj1 (NewTrustedGcrRepository_all_or_nothing spec_handler
             "/missing" (Some sample_ref) (Some registry_cred)
             (Some notary_cred) fresh_world) (errors_New ConfigError)).
    vm_compute. reflexivity.
  - apply (proj2 (NewTrustedGcrRepository_all_or_nothing spec_handler
             "/etc/notary" (Some sample_ref) (Some registry_cred)
             (Some notary_cred) fresh_world)).
    vm_compute. reflexivity.
Defined.

(** ** Push: the two phases *)

(** C1. If the registry upload of TrustPush fails, the trust service
    receives no call and the operation returns the registry-phase error;
    in every run, a call to the trust service is preceded by the registry
    upload having returned nil. *)
Theorem TrustPush_registry_failure_stops {W : Type} (h : Handler W)
    (repo : TrustedGcrRepository) (img : iface Image) (w : W) :
  let upload := pushImage (ref repo) img (registryAuth repo) in
  let o := run h (TrustPush img) repo w in
  (forall e, fst (h _ upload w) = Some e ->
     result o = Some e /\
     List.filter (calls TrustService) (trace o) = [] /\
     List.filter (calls Registry) (trace o) = [Called upload (Some e)]) /\
  (forall ev, In ev (trace o) -> calls TrustService ev = true ->
     fst (h _ upload w) = None /\ trace o = [Called upload None; ev]).
Proof.
  intros upload o. subst upload o.
  destruct (h _ (pushImage (ref repo) img (registryAuth repo)) w)
    as [[e1|] w1] eqn:Hpush.
  - rewrite (run_TrustPush_failed h repo img w e1 w1 Hpush). simpl. split.
    + intros e [= <-]. repeat split.
    + intros ev [<- | [<- | []]]; simpl; discriminate.
  - destruct (h _ (pushTrustedReference (ref repo) img (notaryAuth repo)
                     (config repo)) w1) as [err2 w2] eqn:Htrust.
    rewrite (run_TrustPush_pushed h repo img w w1 err2 w2 Hpush Htrust).
    simpl. split.
    + intros e [=].
    + intros ev [<- | [<- | []]]; simpl; intros Hc;
        [discriminate | split; reflexivity].
Qed.

Lemma TrustPush_registry_failure_stops_witness :
  (result (run spec_handler (TrustPush (Some sample_image)) sample_repo
             registry_down) = Some (errors_New RegistryPushError) /\
   List.filter (calls TrustService)
     (trace (run spec_handler (TrustPush (Some sample_image)) sample_repo
               registry_down)) = []) /\
  fst (spec_handler _
         (pushImage (Some sample_ref) (Some sample_image)
            (Some registry_cred)) fresh_world) = None.
Proof.
  split.
  - pose proof (proj1 (TrustPush_registry_failure_stops spec_handler
                         sample_repo (Some sample_image) registry_down)
                  (errors_New RegistryPushError)) as Hstop.
    destruct Hstop as (Hres & Hnone & _).
    + vm_compute. reflexivity.
    + split; [exact Hres | exact Hnone].
  - apply (proj2 (TrustPush_registry_failure_stops spec_handler sample_repo
                    (Some sample_image) fresh_world)
             (Called
                (pushTrustedReference (Some sample_ref) (Some sample_image)
                   (Some notary_cred) (Some sample_config)) None)).
    + vm_compute. right. left. reflexivity.
    + reflexivity.
Defined.

(** ** Error propagation *)

(** C7. No error is swallowed: in each of NewTrustedGcrRepository,
    ListTarget, TrustPush, Verify, SignImage and RevokeTag, whenever a
    delegated collaborator call comes back with an error, the operation
    returns a non-nil error to its caller (that very error), so no
    partial success is reported as success. *)
Theorem no_error_swallowed {W : Type} (h : Handler W)
    (configDir : string) (r : iface Reference) (ra na : iface Authenticator)
    (repo : TrustedGcrRepository) (img : iface Image) (tag : string)
    (w : W) :
  reports_failures snd (run h (NewTrustedGcrRepository configDir r ra na) tt w)
  /\ reports_failures snd (run h ListTarget repo w)
  /\ reports_failures id (run h (TrustPush img) repo w)
  /\ reports_failures snd (run h Verify repo w)
  /\ reports_failures id (run h (SignImage img) repo w)
  /\ reports_failures id (run h (RevokeTag tag) repo w).
Proof.
  unfold reports_failures. repeat split.
  - destruct (h _ (trust_ParseConfig configDir) w) as [[cfg [e1|]] w']
      eqn:Hresp;
      rewrite (run_NewTrustedGcrRepository h _ r ra na _ _ _ _ Hresp);
      intros ev e Hin Herr; each_event Hin.
  - destruct (h _ (listTargets (ref repo) (notaryAuth repo) (config repo)) w)
      as [[ts [e1|]] w'] eqn:Hresp;
      rewrite (run_ListTarget h _ _ _ _ _ Hresp);
      intros ev e Hin Herr; each_event Hin.
  - destruct (h _ (pushImage (ref repo) img (registryAuth repo)) w)
      as [[e1|] w1] eqn:Hpush.
    + rewrite (run_TrustPush_failed h _ _ _ _ _ Hpush).
      intros ev e Hin Herr; each_event Hin.
    + destruct (h _ (pushTrustedReference (ref repo) img (notaryAuth repo)
                       (config repo)) w1) as [err2 w2] eqn:Htrust.
      rewrite (run_TrustPush_pushed h _ _ _ _ _ _ Hpush Htrust).
      intros ev e Hin Herr; each_event Hin.
  - destruct (h _ (getTrustedTarget (ref repo) (notaryAuth repo)
                     (config repo)) w) as [[t [e1|]] w'] eqn:Hresp;
      rewrite (run_Verify h _ _ _ _ _ Hresp);
      intros ev e Hin Herr; each_event Hin.
  - destruct (h _ (signImage (ref repo) img (notaryAuth repo) (config repo)) w)
      as [[e1|] w'] eqn:Hresp;
      rewrite (run_SignImage h _ _ _ _ _ Hresp);
      intros ev e Hin Herr; each_event Hin.
  - destruct (h _ (revokeImage (ref repo) tag (notaryAuth repo)
                     (config repo)) w) as [[e1|] w'] eqn:Hresp;
      rewrite (run_RevokeTag h _ _ _ _ _ Hresp);
      intros ev e Hin Herr; each_event Hin.
Qed.

Lemma no_error_swallowed_witness :
  result (run spec_handler (TrustPush (Some sample_image)) sample_repo
            no_signing_key) = Some (errors_New TrustPublishError).
Proof.
  apply (proj1 (proj2 (proj2
           (no_error_swallowed spec_handler "/etc/notary" None None None
              sample_repo (Some sample_image) "v1" no_signing_key)))
           (Called
              (pushTrustedReference (Some sample_ref) (Some sample_image)
                 (Some notary_cred) (Some sample_config))
              (Some (errors_New TrustPublishError)))
           (errors_New TrustPublishError)).
  - vm_compute. right. left. reflexivity.
  - reflexivity.
Defined.

(** C6, as the code has it.  A collaborator's error is handed back to the
    caller unchanged, not wrapped: this holds on every failing path,
    the trust-publish phase of TrustPush included.  On the failing paths
    of NewTrustedGcrRepository, ListTarget, Verify, SignImage, RevokeTag
    and of the registry phase of TrustPush the adapter writes exactly one
    log line, which names the failed operation and carries the error. *)
Theorem collaborator_error_verbatim_logged_once {W : Type} (h : Handler W)
    (configDir : string) (r : iface Reference) (ra na : iface Authenticator)
    (repo : TrustedGcrRepository) (img : iface Image) (tag : string)
    (w : W) :
  (forall e, snd (fst (h _ (trust_ParseConfig configDir) w)) = Some e ->
     let o := run h (NewTrustedGcrRepository configDir r ra na) tt w in
     snd (result o) = Some e /\
     logs (trace o) = [("failed to parse config: %s", e)] /\
     logged_times e (trace o) = 1)
  /\ (forall e,
        snd (fst (h _ (listTargets (ref repo) (notaryAuth repo)
                         (config repo)) w)) = Some e ->
        let o := run h ListTarget repo w in
        snd (result o) = Some e /\
        logs (trace o) = [("failed to list targets: %s", e)] /\
        logged_times e (trace o) = 1)
  /\ (forall e,
        fst (h _ (pushImage (ref repo) img (registryAuth repo)) w) = Some e ->
        let o := run h (TrustPush img) repo w in
        result o = Some e /\
        logs (trace o) = [("failed to push image: %s", e)] /\
        logged_times e (trace o) = 1)
  /\ (forall w1 e,
        h _ (pushImage (ref repo) img (registryAuth repo)) w = (None, w1) ->
        fst (h _ (pushTrustedReference (ref repo) img (notaryAuth repo)
                    (config repo)) w1) = Some e ->
        result (run h (TrustPush img) repo w) = Some e)
  /\ (forall e,
        snd (fst (h _ (getTrustedTarget (ref repo) (notaryAuth repo)
                         (config repo)) w)) = Some e ->
        let o := run h Verify repo w in
        snd (result o) = Some e /\
        logs (trace o) = [("failed to verify repository: %s", e)] /\
        logged_times e (trace o) = 1)
  /\ (forall e,
        fst (h _ (signImage (ref repo) img (notaryAuth repo)
                    (config repo)) w) = Some e ->
        let o := run h (SignImage img) repo w in
        result o = Some e /\
        logs (trace o) = [("failed to sign image: %s", e)] /\
        logged_times e (trace o) = 1)
  /\ (forall e,
        fst (h _ (revokeImage (ref repo) tag (notaryAuth repo)
                    (config repo)) w) = Some e ->
        let o := run h (RevokeTag tag) repo w in
        result o = Some e /\
        logs (trace o) = [("failed to revoke trusted repository: %s", e)] /\
        logged_times e (trace o) = 1).
Proof.
  assert (Honce : forall (format : string) (e : error) (tr : list Event),
            logs tr = [(format, e)] -> logged_times e tr = 1).
  { intros format e tr Hlogs. unfold logged_times. rewrite Hlogs.
    rewrite filter_cons_True by reflexivity. reflexivity. }
  split; [|split; [|split; [|split; [|split; [|split]]]]].
  - intros e He.
    destruct (h _ (trust_ParseConfig configDir) w) as [[cfg err] w']
      eqn:Hresp.
    simpl in He. subst err.
    rewrite (run_NewTrustedGcrRepository h _ r ra na _ _ _ _ Hresp).
    simpl. eauto.
  - intros e He.
    destruct (h _ (listTargets (ref repo) (notaryAuth repo) (config repo)) w)
      as [[ts err] w'] eqn:Hresp.
    simpl in He. subst err. rewrite (run_ListTarget h _ _ _ _ _ Hresp).
    simpl. eauto.
  - intros e He.
    destruct (h _ (pushImage (ref repo) img (registryAuth repo)) w)
      as [err w'] eqn:Hresp.
    simpl in He. subst err. rewrite (run_TrustPush_failed h _ _ _ _ _ Hresp).
    simpl. eauto.
  - intros w1 e Hpush He.
    destruct (h _ (pushTrustedReference (ref repo) img (notaryAuth repo)
                     (config repo)) w1) as [err w2] eqn:Hresp.
    simpl in He. subst err.
    rewrite (run_TrustPush_pushed h _ _ _ _ _ _ Hpush Hresp). reflexivity.
  - intros e He.
    destruct (h _ (getTrustedTarget (ref repo) (notaryAuth repo)
                     (config repo)) w) as [[t err] w'] eqn:Hresp.
    simpl in He. subst err. rewrite (run_Verify h _ _ _ _ _ Hresp).
    simpl. eauto.
  - intros e He.
    destruct (h _ (signImage (ref repo) img (notaryAuth repo)
                     (config repo)) w) as [err w'] eqn:Hresp.
    simpl in He. subst err. rewrite (run_SignImage h _ _ _ _ _ Hresp).
    simpl. eauto.
  - intros e He.
    destruct (h _ (revokeImage (ref repo) tag (notaryAuth repo)
                     (config repo)) w) as [err w'] eqn:Hresp.
    simpl in He. subst err. rewrite (run_RevokeTag h _ _ _ _ _ Hresp).
    simpl. eauto.
Qed.

Lemma collaborator_error_verbatim_logged_once_witness :
  snd (result (run spec_handler ListTarget sample_repo fresh_world))
    = Some (errors_New NoTrustData) /\
  logs (trace (run spec_handler ListTarget sample_repo fresh_world))
    = [("failed to list targets: %s", errors_New NoTrustData)] /\
  logged_times (errors_New NoTrustData)
    (trace (run spec_handler ListTarget sample_repo fresh_world)) = 1.
Proof.
  apply (proj1 (proj2
           (collaborator_error_verbatim_logged_once spec_handler
              "/etc/notary" None None None sample_repo (Some sample_image)
              "v1" fresh_world)) (errors_New NoTrustData)).
  vm_compute. reflexivity.
Defined.

(** C6, as the spec words it, fails: listing the targets of a repository
    without trust data hands the caller the trust client's own error, not
    an error wrapping it. *)
Lemma wrapped_and_logged_once_counterexample :
  ~ wrapped_and_logged_once snd
      (run spec_handler ListTarget sample_repo fresh_world).
Proof.
  intros Hclaim.
  destruct (Hclaim
              (Called
                 (listTargets (Some sample_ref) (Some notary_cred)
                    (Some sample_config))
                 ([], Some (errors_New NoTrustData)))
              (errors_New NoTrustData)) as [[e' [Hret Hwrap]] _].
  - vm_compute. left. reflexivity.
  - reflexivity.
  - vm_compute in Hret. injection Hret as <-. exact Hwrap.
Qed.

(** The trust-publish phase of TrustPush is the one failing path on which
    the adapter writes no log line: here the registry upload succeeds, the
    publication fails for want of a signing key, and the log stays empty. *)
Example TrustPush_publish_failure_not_logged :
  let o := run spec_handler (TrustPush (Some sample_image)) sample_repo
             no_signing_key in
  result o = Some (errors_New TrustPublishError) /\ logs (trace o) = [].
Proof. vm_compute. split; reflexivity. Qed.

(** ** The adapter's own state *)

(** C9. The adapter holds no mutable state: ListTarget, TrustPush, Verify,
    SignImage and RevokeTag leave the receiver, hence its four fields,
    as they found it, and every collaborator call they make takes its
    reference, authenticator and configuration from these fields. *)
Theorem adapter_fields_unchanged {W : Type} (h : Handler W)
    (repo : TrustedGcrRepository) (img : iface Image) (tag : string)
    (w : W) :
  (self (run h ListTarget repo w) = repo /\
   Forall (from_fields repo) (trace (run h ListTarget repo w)))
  /\ (self (run h (TrustPush img) repo w) = repo /\
      Forall (from_fields repo) (trace (run h (TrustPush img) repo w)))
  /\ (self (run h Verify repo w) = repo /\
      Forall (from_fields repo) (trace (run h Verify repo w)))
  /\ (self (run h (SignImage img) repo w) = repo /\
      Forall (from_fields repo) (trace (run h (SignImage img) repo w)))
  /\ (self (run h (RevokeTag tag) repo w) = repo /\
      Forall (from_fields repo) (trace (run h (RevokeTag tag) repo w))).
Proof.
  split; [|split; [|split; [|split]]].
  - destruct (h _ (listTargets (ref repo) (notaryAuth repo) (config repo)) w)
      as [[ts [e1|]] w'] eqn:Hresp;
      rewrite (run_ListTarget h _ _ _ _ _ Hresp); simpl;
      (split; [reflexivity | all_from_fields]).
  - destruct (h _ (pushImage (ref repo) img (registryAuth repo)) w)
      as [[e1|] w1] eqn:Hpush.
    + rewrite (run_TrustPush_failed h _ _ _ _ _ Hpush); simpl.
      split; [reflexivity | all_from_fields].
    + destruct (h _ (pushTrustedReference (ref repo) img (notaryAuth repo)
                       (config repo)) w1) as [err2 w2] eqn:Htrust.
      rewrite (run_TrustPush_pushed h _ _ _ _ _ _ Hpush Htrust); simpl.
      split; [reflexivity | all_from_fields].
  - destruct (h _ (getTrustedTarget (ref repo) (notaryAuth repo)
                     (config repo)) w) as [[t [e1|]] w'] eqn:Hresp;
      rewrite (run_Verify h _ _ _ _ _ Hresp); simpl;
      (split; [reflexivity | all_from_fields]).
  - destruct (h _ (signImage (ref repo) img (notaryAuth repo) (config repo)) w)
      as [[e1|] w'] eqn:Hresp;
      rewrite (run_SignImage h _ _ _ _ _ Hresp); simpl;
      (split; [reflexivity | all_from_fields]).
  - destruct (h _ (revokeImage (ref repo) tag (notaryAuth repo)
                     (config repo)) w) as [[e1|] w'] eqn:Hresp;
      rewrite (run_RevokeTag h _ _ _ _ _ Hresp); simpl;
      (split; [reflexivity | all_from_fields]).
Qed.

(** ** The collaborators of the spec: what a refused request does *)

Lemma trust_answers_unreachable auth w :
  trust_reachable w = false -> trust_answers auth w = false.
Proof. intros Hdown. unfold trust_answers. rewrite Hdown. reflexivity. Qed.

Lemma spec_listTargets_refused r auth c w :
  trust_answers auth w = false ->
  spec_listTargets r auth c w = (([], Some (errors_New TrustUnavailable)), w).
Proof.
  intros Hno. unfold spec_listTargets. rewrite Hno.
  destruct r, c; reflexivity.
Qed.

(** ** Credentials *)



(** With the credentials interchanged, or with one credential in both
    fields, push and verify go through in that world. *)
Example interchanged_credentials_accepted :
  interchanged sample_repo = swapped_repo /\
  result (run spec_handler (TrustPush (Some sample_image)) swapped_repo
            lenient_world) = None /\
  result (run spec_handler Verify swapped_repo
            (world (run spec_handler (TrustPush (Some sample_image))
                      swapped_repo lenient_world)))
    = (Some (mkTarget "v1" "sha256:aaa" 1024), None) /\
  result (run spec_handler (SignImage (Some sample_image)) swapped_repo
            lenient_world) = None /\
  result (run spec_handler (TrustPush (Some sample_image))
            (mkRepo (Some sample_ref) (Some registry_cred)
               (Some registry_cred) (Some sample_config))
            lenient_world) = None.
Proof. vm_compute. repeat split. Qed.

(** ** The collaborators of the spec: the trust metadata *)

Lemma bound_target_add_target r i w :
  bound_target (add_target r i w) (ref_context r) (ref_identifier r)
    = Some (target_of r i).
Proof.
  unfold bound_target, add_target, set_trust_meta. simpl.
  rewrite lookup_insert_eq. simpl. apply lookup_insert_eq.
Qed.

Lemma bound_target_remove_target repository tag w :
  bound_target (remove_target repository tag w) repository tag = None.
Proof.
  unfold bound_target, remove_target, set_trust_meta. simpl.
  rewrite lookup_insert_eq. simpl. apply lookup_delete_eq.
Qed.

Lemma add_target_again r i w :
  add_target r i (add_target r i w) = add_target r i w.
Proof.
  unfold add_target at 1. unfold targets_of.
  unfold add_target, set_trust_meta. simpl.
  rewrite lookup_insert_eq. simpl.
  rewrite !insert_insert_eq. reflexivity.
Qed.

Lemma spec_pushTrustedReference_ok r img auth c w w' :
  spec_pushTrustedReference r img auth c w = (None, w') ->
  exists r' i cfg,
    r = Some r' /\ img = Some i /\ c = Some cfg /\
    trust_answers auth w = true /\ w' = add_target r' i w.
Proof.
  unfold spec_pushTrustedReference. intros Hok.
  destruct r as [r'|], img as [i|], c as [cfg|]; try discriminate.
  destruct (trust_answers auth w) eqn:Hans; simpl in Hok; try discriminate.
  destruct (can_sign cfg w); try discriminate.
  injection Hok as <-. exists r', i, cfg. repeat split.
Qed.

Lemma spec_getTrustedTarget_bound r auth cfg w t :
  trust_answers auth w = true ->
  bound_target w (ref_context r) (ref_identifier r) = Some t ->
  spec_getTrustedTarget (Some r) auth (Some cfg) w = ((Some t, None), w).
Proof.
  intros Hans Hbound. unfold spec_getTrustedTarget.
  rewrite Hans, Hbound. reflexivity.
Qed.

Lemma spec_getTrustedTarget_unbound r auth cfg w :
  trust_answers auth w = true ->
  bound_target w (ref_context r) (ref_identifier r) = None ->
  spec_getTrustedTarget (Some r) auth (Some cfg) w
    = ((None, Some (errors_New NotTrusted)), w).
Proof.
  intros Hans Hbound. unfold spec_getTrustedTarget.
  rewrite Hans, Hbound. reflexivity.
Qed.

Lemma spec_revokeImage_ok r tag auth c w w' :
  spec_revokeImage r tag auth c w = (None, w') ->
  exists r' cfg,
    r = Some r' /\ c = Some cfg /\ trust_answers auth w = true /\
    w' = remove_target (ref_context r') tag w.
Proof.
  unfold spec_revokeImage. intros Hok.
  destruct r as [r'|], c as [cfg|]; try discriminate.
  destruct (trust_answers auth w) eqn:Hans; try discriminate.
  destruct (bound_target w (ref_context r') tag); try discriminate.
  destruct (can_sign cfg w); try discriminate.
  injection Hok as <-. exists r', cfg. repeat split.
Qed.

Lemma spec_signImage_cases r img auth c w :
  (exists e, spec_signImage r img auth c w = (Some e, w)) \/
  (exists r' i cfg,
     r = Some r' /\ img = Some i /\ c = Some cfg /\
     trust_answers auth w = true /\ can_sign cfg w = true /\
     spec_signImage r img auth c w = (None, add_target r' i w)).
Proof.
  unfold spec_signImage.
  destruct r as [r'|], c as [cfg|]; try (left; eexists; reflexivity).
  destruct (trust_answers auth w) eqn:Hans; [|left; eexists; reflexivity].
  destruct img as [i|]; [|left; eexists; reflexivity].
  destruct (can_sign cfg w) eqn:Hsign; [|left; eexists; reflexivity].
  right. exists r', i, cfg. repeat split; assumption.
Qed.

(** ** Push, sign, verify, revoke against the services of the spec *)

(** C2. For every image, if TrustPush succeeds (registry upload and trust
    publication both), a following Verify on the same adapter returns,
    with a nil error, a Target whose digest is the image's content digest
    and whose length is the image's size. *)
Theorem TrustPush_then_Verify (repo : TrustedGcrRepository) (i : Image)
    (w : World) :
  let o1 := run spec_handler (TrustPush (Some i)) repo w in
  result o1 = None ->
  let o2 := run spec_handler Verify (self o1) (world o1) in
  exists t,
    result o2 = (Some t, None) /\
    target_hashes t = img_digest i /\ target_length t = img_size i.
Proof.
  intros o1 Hok o2. subst o1 o2.
  destruct (spec_pushImage (ref repo) (Some i) (registryAuth repo) w)
    as [[e1|] w1] eqn:Hup.
  - rewrite (run_TrustPush_failed spec_handler repo (Some i) w e1 w1 Hup)
      in Hok.
    discriminate.
  - destruct (spec_pushTrustedReference (ref repo) (Some i) (notaryAuth repo)
                (config repo) w1) as [err2 w2] eqn:Hpub.
    rewrite (run_TrustPush_pushed spec_handler repo (Some i) w w1 err2 w2
               Hup Hpub) in Hok |- *.
    simpl in Hok. subst err2. cbn [self world].
    destruct (spec_pushTrustedReference_ok _ _ _ _ _ _ Hpub)
      as (r' & i' & cfg & Hr & [= <-] & Hc & Hans & ->).
    exists (target_of r' i).
    assert (Hget : spec_getTrustedTarget (ref repo) (notaryAuth repo)
                     (config repo) (add_target r' i w1)
                   = ((Some (target_of r' i), None), add_target r' i w1)).
    { rewrite Hr, Hc. apply spec_getTrustedTarget_bound.
      - exact Hans.
      - apply bound_target_add_target. }
    rewrite (run_Verify spec_handler repo _ _ _ _ Hget).
    simpl. repeat split.
Qed.

Lemma TrustPush_then_Verify_witness :
  exists t,
    result (run spec_handler Verify sample_repo
              (world (run spec_handler (TrustPush (Some sample_image))
                        sample_repo fresh_world)))
      = (Some t, None) /\
    target_hashes t = "sha256:aaa" /\ target_length t = 1024%Z.
Proof.
  apply (TrustPush_then_Verify sample_repo sample_image fresh_world).
  vm_compute. reflexivity.
Defined.

(** The scenario of the spec: pushing digest sha256:aaa, size 1024 under
    tag v1, then verifying. *)
Example TrustPush_then_Verify_scenario :
  result (run spec_handler Verify sample_repo
            (world (run spec_handler (TrustPush (Some sample_image))
                      sample_repo fresh_world)))
    = (Some (mkTarget "v1" "sha256:aaa" 1024), None).
Proof. vm_compute. reflexivity. Qed.

(** C4. ListTarget on a repository for which no trust metadata was ever
    published never returns a success, empty or not: it returns an error,
    of kind NoTrustData when the trust service answers the request, and
    of kind TrustUnavailable when the service cannot be reached. *)
Theorem ListTarget_without_trust_data (repo : TrustedGcrRepository)
    (r : Reference) (cfg : Config) (w : World) :
  ref repo = Some r ->
  config repo = Some cfg ->
  trust_meta w !! ref_context r = None ->
  let o := run spec_handler ListTarget repo w in
  (exists e, snd (result o) = Some e) /\
  (trust_answers (notaryAuth repo) w = true ->
     result o = ([], Some (errors_New NoTrustData))) /\
  (trust_reachable w = false ->
     result o = ([], Some (errors_New TrustUnavailable))).
Proof.
  intros Hr Hc Hnone o. subst o.
  destruct (trust_answers (notaryAuth repo) w) eqn:Hans.
  - assert (Hlist : spec_listTargets (ref repo) (notaryAuth repo)
                      (config repo) w
                    = (([], Some (errors_New NoTrustData)), w)).
    { rewrite Hr, Hc. unfold spec_listTargets. rewrite Hans, Hnone.
      reflexivity. }
    rewrite (run_ListTarget spec_handler repo w _ _ _ Hlist). simpl.
    split; [eauto|]. split; [reflexivity|].
    intros Hdown. apply (trust_answers_unreachable (notaryAuth repo)) in Hdown.
    congruence.
  - rewrite (run_ListTarget spec_handler repo w _ _ _
               (spec_listTargets_refused _ _ _ _ Hans)). simpl.
    split; [eauto|]. split; [discriminate | reflexivity].
Qed.

Lemma ListTarget_without_trust_data_witness :
  result (run spec_handler ListTarget sample_repo fresh_world)
    = ([], Some (errors_New NoTrustData)).
Proof.
  apply (ListTarget_without_trust_data sample_repo sample_ref sample_config
           fresh_world); reflexivity.
Defined.

(** By contrast, once metadata exists for the repository the listing
    succeeds, also when it holds no target any more. *)
Example ListTarget_empty_role :
  result (run spec_handler ListTarget sample_repo
            (remove_target "gcr.io/project/app" "v1" signed_world))
    = ([], None).
Proof. vm_compute. reflexivity. Qed.

(** ... and once the sample image is signed, the listing holds its
    Target. *)
Example ListTarget_after_signing :
  result (run spec_handler ListTarget sample_repo signed_world)
    = ([mkTarget "v1" "sha256:aaa" 1024], None).
Proof. vm_compute. reflexivity. Qed.

(** C5. After a successful RevokeTag of the tag the adapter's reference
    names, Verify returns no target and an error of kind NotTrusted. *)
Theorem RevokeTag_then_Verify (repo : TrustedGcrRepository) (r : Reference)
    (tag : string) (w : World) :
  ref repo = Some r ->
  ref_identifier r = tag ->
  let o1 := run spec_handler (RevokeTag tag) repo w in
  result o1 = None ->
  result (run spec_handler Verify (self o1) (world o1))
    = (None, Some (errors_New NotTrusted)).
Proof.
  intros Hr Htag o1 Hok. subst o1.
  destruct (spec_revokeImage (ref repo) tag (notaryAuth repo) (config repo) w)
    as [err w1] eqn:Hrev.
  rewrite (run_RevokeTag spec_handler repo tag w err w1 Hrev) in Hok |- *.
  destruct err as [e|]; [discriminate|]. cbn [self world].
  destruct (spec_revokeImage_ok _ _ _ _ _ _ Hrev)
    as (r' & cfg & Hr' & Hc & Hans & ->).
  rewrite Hr in Hr'. injection Hr' as <-.
  assert (Hget : spec_getTrustedTarget (ref repo) (notaryAuth repo)
                   (config repo) (remove_target (ref_context r) tag w)
                 = ((None, Some (errors_New NotTrusted)),
                    remove_target (ref_context r) tag w)).
  { rewrite Hr, Hc. apply spec_getTrustedTarget_unbound.
    - exact Hans.
    - rewrite Htag. apply bound_target_remove_target. }
  rewrite (run_Verify spec_handler repo _ _ _ _ Hget). reflexivity.
Qed.

Lemma RevokeTag_then_Verify_witness :
  result (run spec_handler Verify sample_repo
            (world (run spec_handler (RevokeTag "v1") sample_repo
                      signed_world)))
    = (None, Some (errors_New NotTrusted)).
Proof.
  apply (RevokeTag_then_Verify sample_repo sample_ref "v1" signed_world).
  - reflexivity.
  - reflexivity.
  - vm_compute. reflexivity.
Defined.

(** C8. SignImage is idempotent: signing the same digest (and size) under
    the same tag a second time returns what the first call returned and
    leaves the world, hence the Target bound to the tag, as the first call
    left it; when the calls succeed that Target carries the image's digest
    and size. *)
Theorem SignImage_idempotent (repo : TrustedGcrRepository) (i1 i2 : Image)
    (w : World) :
  img_digest i1 = img_digest i2 ->
  img_size i1 = img_size i2 ->
  let o1 := run spec_handler (SignImage (Some i1)) repo w in
  let o2 := run spec_handler (SignImage (Some i2)) (self o1) (world o1) in
  result o2 = result o1 /\
  world o2 = world o1 /\
  (forall repository tag,
     bound_target (world o2) repository tag
     = bound_target (world o1) repository tag) /\
  (result o1 = None ->
   exists r, ref repo = Some r /\
     bound_target (world o2) (ref_context r) (ref_identifier r)
     = Some (mkTarget (ref_identifier r) (img_digest i1) (img_size i1))).
Proof.
  intros Hdigest Hsize o1 o2. subst o1 o2.
  assert (i2 = i1) as ->.
  { destruct i1, i2. simpl in *. congruence. }
  destruct (spec_signImage_cases (ref repo) (Some i1) (notaryAuth repo)
              (config repo) w)
    as [[e Hfail] | (r & i & cfg & Hr & [= <-] & Hc & Hans & Hsign & Hok)].
  - rewrite (run_SignImage spec_handler repo (Some i1) w _ _ Hfail).
    cbn [self world result].
    rewrite (run_SignImage spec_handler repo (Some i1) w _ _ Hfail).
    cbn [self world result]. repeat split. discriminate.
  - rewrite (run_SignImage spec_handler repo (Some i1) w _ _ Hok).
    cbn [self world result].
    assert (Hagain : spec_signImage (ref repo) (Some i1) (notaryAuth repo)
                       (config repo) (add_target r i1 w)
                     = (None, add_target r i1 w)).
    { rewrite Hr, Hc. unfold spec_signImage.
      change (trust_answers (notaryAuth repo) (add_target r i1 w))
        with (trust_answers (notaryAuth repo) w).
      change (can_sign cfg (add_target r i1 w)) with (can_sign cfg w).
      rewrite Hans, Hsign, add_target_again. reflexivity. }
    rewrite (run_SignImage spec_handler repo (Some i1) _ _ _ Hagain).
    cbn [self world result]. repeat split.
    intros _. exists r. split; [exact Hr|]. apply bound_target_add_target.
Qed.

Lemma SignImage_idempotent_witness :
  let o1 := run spec_handler (SignImage (Some sample_image)) sample_repo
              fresh_world in
  let o2 := run spec_handler (SignImage (Some (mkImage "sha256:aaa" 1024)))
              (self o1) (world o1) in
  result o2 = result o1 /\ world o2 = world o1.
Proof.
  pose proof (SignImage_idempotent sample_repo sample_image
                (mkImage "sha256:aaa" 1024) fresh_world eq_refl eq_refl)
    as (Hres & Hworld & _).
  split; [exact Hres | exact Hworld].
Defined.

(** ** Further properties of the adapter *)

(** X1. NewTrustedGcrRepository, ListTarget, Verify, SignImage and
    RevokeTag each make exactly one collaborator call, whatever it
    returns: the constructor only parses the configuration, the four
    methods only call the trust service; none calls the registry and none
    repeats a call that failed. *)
Theorem operations_delegate_once {W : Type} (h : Handler W)
    (configDir : string) (r : iface Reference) (ra na : iface Authenticator)
    (repo : TrustedGcrRepository) (img : iface Image) (tag : string)
    (w : W) :
  let parse := trust_ParseConfig configDir in
  let list := listTargets (ref repo) (notaryAuth repo) (config repo) in
  let get := getTrustedTarget (ref repo) (notaryAuth repo) (config repo) in
  let sign := signImage (ref repo) img (notaryAuth repo) (config repo) in
  let revoke := revokeImage (ref repo) tag (notaryAuth repo) (config repo) in
  collaborator_calls
    (trace (run h (NewTrustedGcrRepository configDir r ra na) tt w))
    = [Called parse (fst (h _ parse w))]
  /\ collaborator_calls (trace (run h ListTarget repo w))
     = [Called list (fst (h _ list w))]
  /\ collaborator_calls (trace (run h Verify repo w))
     = [Called get (fst (h _ get w))]
  /\ collaborator_calls (trace (run h (SignImage img) repo w))
     = [Called sign (fst (h _ sign w))]
  /\ collaborator_calls (trace (run h (RevokeTag tag) repo w))
     = [Called revoke (fst (h _ revoke w))].
Proof.
  intros parse list get sign revoke. subst parse list get sign revoke.
  split; [|split; [|split; [|split]]].
  - destruct (h _ (trust_ParseConfig configDir) w) as [[cfg [e1|]] w']
      eqn:Hresp;
      rewrite (run_NewTrustedGcrRepository h _ r ra na _ _ _ _ Hresp);
      reflexivity.
  - destruct (h _ (listTargets (ref repo) (notaryAuth repo) (config repo)) w)
      as [[ts [e1|]] w'] eqn:Hresp;
      rewrite (run_ListTarget h _ _ _ _ _ Hresp); reflexivity.
  - destruct (h _ (getTrustedTarget (ref repo) (notaryAuth repo)
                     (config repo)) w) as [[t [e1|]] w'] eqn:Hresp;
      rewrite (run_Verify h _ _ _ _ _ Hresp); reflexivity.
  - destruct (h _ (signImage (ref repo) img (notaryAuth repo) (config repo)) w)
      as [[e1|] w'] eqn:Hresp;
      rewrite (run_SignImage h _ _ _ _ _ Hresp); reflexivity.
  - destruct (h _ (revokeImage (ref repo) tag (notaryAuth repo)
                     (config repo)) w) as [[e1|] w'] eqn:Hresp;
      rewrite (run_RevokeTag h _ _ _ _ _ Hresp); reflexivity.
Qed.

(** X2. TrustPush calls the registry upload first and once; it goes on to
    the trust publication, once, exactly when the upload returned nil, and
    hands both phases the same reference and the same image.  It makes no
    other call. *)
Theorem TrustPush_call_sequence {W : Type} (h : Handler W)
    (repo : TrustedGcrRepository) (img : iface Image) (w : W) :
  let upload := pushImage (ref repo) img (registryAuth repo) in
  let publish :=
    pushTrustedReference (ref repo) img (notaryAuth repo) (config repo) in
  let o := run h (TrustPush img) repo w in
  match fst (h _ upload w) with
  | Some e => collaborator_calls (trace o) = [Called upload (Some e)]
  | None =>
      collaborator_calls (trace o)
      = [Called upload None;
         Called publish (fst (h _ publish (snd (h _ upload w))))]
  end.
Proof.
  intros upload publish o. subst upload publish o.
  destruct (h _ (pushImage (ref repo) img (registryAuth repo)) w)
    as [[e1|] w1] eqn:Hpush; cbn [fst snd].
  - rewrite (run_TrustPush_failed h _ _ _ _ _ Hpush). reflexivity.
  - destruct (h _ (pushTrustedReference (ref repo) img (notaryAuth repo)
                     (config repo)) w1) as [err2 w2] eqn:Htrust.
    rewrite (run_TrustPush_pushed h _ _ _ _ _ _ Hpush Htrust). reflexivity.
Qed.

(** X3. TrustPush does not roll back: when the upload succeeds and the
    publication fails, the operation returns the publication's error, the
    registry has received the upload and nothing after it, and the world
    is left exactly as the failed publication left it. *)
Theorem TrustPush_no_rollback {W : Type} (h : Handler W)
    (repo : TrustedGcrRepository) (img : iface Image) (w w1 : W)
    (e : error) :
  let upload := pushImage (ref repo) img (registryAuth repo) in
  let publish :=
    pushTrustedReference (ref repo) img (notaryAuth repo) (config repo) in
  h _ upload w = (None, w1) ->
  fst (h _ publish w1) = Some e ->
  let o := run h (TrustPush img) repo w in
  result o = Some e /\
  List.filter (calls Registry) (trace o) = [Called upload None] /\
  world o = snd (h _ publish w1).
Proof.
  intros upload publish Hpush Hfail o. subst upload publish o.
  destruct (h _ (pushTrustedReference (ref repo) img (notaryAuth repo)
                   (config repo)) w1) as [err2 w2] eqn:Htrust.
  simpl in Hfail. subst err2.
  rewrite (run_TrustPush_pushed h _ _ _ _ _ _ Hpush Htrust).
  repeat split.
Qed.

Lemma TrustPush_no_rollback_witness :
  let o := run spec_handler (TrustPush (Some sample_image)) sample_repo
             no_signing_key in
  result o = Some (errors_New TrustPublishError) /\
  List.filter (calls Registry) (trace o)
    = [Called (pushImage (Some sample_ref) (Some sample_image)
                 (Some registry_cred)) None] /\
  reg_images (world o) !! ("gcr.io/project/app", "v1") = Some sample_image.
Proof.
  pose proof (TrustPush_no_rollback spec_handler sample_repo
                (Some sample_image) no_signing_key
                (snd (spec_pushImage (Some sample_ref) (Some sample_image)
                        (Some registry_cred) no_signing_key))
                (errors_New TrustPublishError)) as Hno.
  destruct Hno as (Hres & Hreg & Hworld).
  - vm_compute. reflexivity.
  - vm_compute. reflexivity.
  - split; [exact Hres|]. split; [exact Hreg|].
    rewrite Hworld. vm_compute. reflexivity.
Defined.

(** X4. The adapter never makes up an error: whenever one of the six
    operations returns a non-nil error, that error was returned by one of
    its collaborator calls.  With C7 this makes an operation succeed
    exactly when every call it made succeeded. *)
Theorem errors_come_from_collaborators {W : Type} (h : Handler W)
    (configDir : string) (r : iface Reference) (ra na : iface Authenticator)
    (repo : TrustedGcrRepository) (img : iface Image) (tag : string)
    (w : W) :
  error_from_collaborator snd
    (run h (NewTrustedGcrRepository configDir r ra na) tt w)
  /\ error_from_collaborator snd (run h ListTarget repo w)
  /\ error_from_collaborator id (run h (TrustPush img) repo w)
  /\ error_from_collaborator snd (run h Verify repo w)
  /\ error_from_collaborator id (run h (SignImage img) repo w)
  /\ error_from_collaborator id (run h (RevokeTag tag) repo w).
Proof.
  unfold error_from_collaborator.
  split; [|split; [|split; [|split; [|split]]]].
  - destruct (h _ (trust_ParseConfig configDir) w) as [[cfg [e1|]] w']
      eqn:Hresp;
      rewrite (run_NewTrustedGcrRepository h _ r ra na _ _ _ _ Hresp);
      simpl; intros e [= <-]; eexists; split; [left; reflexivity | eauto].
  - destruct (h _ (listTargets (ref repo) (notaryAuth repo) (config repo)) w)
      as [[ts [e1|]] w'] eqn:Hresp;
      rewrite (run_ListTarget h _ _ _ _ _ Hresp);
      simpl; intros e [= <-]; eexists; split; [left; reflexivity | eauto].
  - destruct (h _ (pushImage (ref repo) img (registryAuth repo)) w)
      as [[e1|] w1] eqn:Hpush.
    + rewrite (run_TrustPush_failed h _ _ _ _ _ Hpush).
      simpl; intros e [= <-]; eexists; split; [left; reflexivity | eauto].
    + destruct (h _ (pushTrustedReference (ref repo) img (notaryAuth repo)
                       (config repo)) w1) as [err2 w2] eqn:Htrust.
      rewrite (run_TrustPush_pushed h _ _ _ _ _ _ Hpush Htrust).
      simpl; intros e ->; eexists; split; [right; left; reflexivity | eauto].
  - destruct (h _ (getTrustedTarget (ref repo) (notaryAuth repo)
                     (config repo)) w) as [[t [e1|]] w'] eqn:Hresp;
      rewrite (run_Verify h _ _ _ _ _ Hresp);
      simpl; intros e [= <-]; eexists; split; [left; reflexivity | eauto].
  - destruct (h _ (signImage (ref repo) img (notaryAuth repo) (config repo)) w)
      as [[e1|] w'] eqn:Hresp;
      rewrite (run_SignImage h _ _ _ _ _ Hresp);
      simpl; intros e [= <-]; eexists; split; [left; reflexivity | eauto].
  - destruct (h _ (revokeImage (ref repo) tag (notaryAuth repo)
                     (config repo)) w) as [[e1|] w'] eqn:Hresp;
      rewrite (run_RevokeTag h _ _ _ _ _ Hresp);
      simpl; intros e [= <-]; eexists; split; [left; reflexivity | eauto].
Qed.

(** X5. The adapter logs nothing but the error it returns: every log line
    of each of the six operations carries the error the operation hands
    back, so an operation that returns nil has logged nothing. *)
Theorem logs_only_the_returned_error {W : Type} (h : Handler W)
    (configDir : string) (r : iface Reference) (ra na : iface Authenticator)
    (repo : TrustedGcrRepository) (img : iface Image) (tag : string)
    (w : W) :
  logs_returned_error snd
    (run h (NewTrustedGcrRepository configDir r ra na) tt w)
  /\ logs_returned_error snd (run h ListTarget repo w)
  /\ logs_returned_error id (run h (TrustPush img) repo w)
  /\ logs_returned_error snd (run h Verify repo w)
  /\ logs_returned_error id (run h (SignImage img) repo w)
  /\ logs_returned_error id (run h (RevokeTag tag) repo w).
Proof.
  unfold logs_returned_error.
  split; [|split; [|split; [|split; [|split]]]].
  - destruct (h _ (trust_ParseConfig configDir) w) as [[cfg [e1|]] w']
      eqn:Hresp;
      rewrite (run_NewTrustedGcrRepository h _ r ra na _ _ _ _ Hresp);
      simpl; intros format e Hin;
      try contradiction; destruct Hin as [[= <- <-] | []]; reflexivity.
  - destruct (h _ (listTargets (ref repo) (notaryAuth repo) (config repo)) w)
      as [[ts [e1|]] w'] eqn:Hresp;
      rewrite (run_ListTarget h _ _ _ _ _ Hresp);
      simpl; intros format e Hin;
      try contradiction; destruct Hin as [[= <- <-] | []]; reflexivity.
  - destruct (h _ (pushImage (ref repo) img (registryAuth repo)) w)
      as [[e1|] w1] eqn:Hpush.
    + rewrite (run_TrustPush_failed h _ _ _ _ _ Hpush).
      simpl; intros format e Hin;
      try contradiction; destruct Hin as [[= <- <-] | []]; reflexivity.
    + destruct (h _ (pushTrustedReference (ref repo) img (notaryAuth repo)
                       (config repo)) w1) as [err2 w2] eqn:Htrust.
      rewrite (run_TrustPush_pushed h _ _ _ _ _ _ Hpush Htrust).
      simpl; intros format e Hin;
      try contradiction; destruct Hin as [[= <- <-] | []]; reflexivity.
  - destruct (h _ (getTrustedTarget (ref repo) (notaryAuth repo)
                     (config repo)) w) as [[t [e1|]] w'] eqn:Hresp;
      rewrite (run_Verify h _ _ _ _ _ Hresp);
      simpl; intros format e Hin;
      try contradiction; destruct Hin as [[= <- <-] | []]; reflexivity.
  - destruct (h _ (signImage (ref repo) img (notaryAuth repo) (config repo)) w)
      as [[e1|] w'] eqn:Hresp;
      rewrite (run_SignImage h _ _ _ _ _ Hresp);
      simpl; intros format e Hin;
      try contradiction; destruct Hin as [[= <- <-] | []]; reflexivity.
  - destruct (h _ (revokeImage (ref repo) tag (notaryAuth repo)
                     (config repo)) w) as [[e1|] w'] eqn:Hresp;
      rewrite (run_RevokeTag h _ _ _ _ _ Hresp);
      simpl; intros format e Hin;
      try contradiction; destruct Hin as [[= <- <-] | []]; reflexivity.
Qed.

(** X6. ListTarget and Verify drop the value on error: when the trust
    client returns an error, the caller gets a nil list (a nil target),
    also when the client returned targets (a target) beside the error;
    when it returns a nil error its value is passed on as it is, a nil
    target included. *)
Theorem value_dropped_on_error {W : Type} (h : Handler W)
    (repo : TrustedGcrRepository) (w : W) :
  let listed :=
    fst (h _ (listTargets (ref repo) (notaryAuth repo) (config repo)) w) in
  let got :=
    fst (h _ (getTrustedTarget (ref repo) (notaryAuth repo) (config repo))
           w) in
  fst (result (run h ListTarget repo w))
    = match snd listed with Some _ => [] | None => fst listed end
  /\ fst (result (run h Verify repo w))
     = match snd got with Some _ => None | None => fst got end.
Proof.
  intros listed got. subst listed got. split.
  - destruct (h _ (listTargets (ref repo) (notaryAuth repo) (config repo)) w)
      as [[ts [e1|]] w'] eqn:Hresp;
      rewrite (run_ListTarget h _ _ _ _ _ Hresp); reflexivity.
  - destruct (h _ (getTrustedTarget (ref repo) (notaryAuth repo)
                     (config repo)) w) as [[t [e1|]] w'] eqn:Hresp;
      rewrite (run_Verify h _ _ _ _ _ Hresp); reflexivity.
Qed.

(** X7. An adapter built by a successful NewTrustedGcrRepository hands the
    constructor's arguments to the right places: used in any later world,
    its upload gets the reference and the registry authenticator (third
    argument), and its trust calls get the reference, the trust
    authenticator (fourth argument) and the configuration that was
    parsed. *)
Theorem constructed_adapter_routes_arguments {W : Type} (h : Handler W)
    (configDir : string) (r : iface Reference) (ra na : iface Authenticator)
    (img : iface Image) (tag : string) (w w2 : W) :
  let o0 := run h (NewTrustedGcrRepository configDir r ra na) tt w in
  let cfg := fst (fst (h _ (trust_ParseConfig configDir) w)) in
  let repo := fst (result o0) in
  snd (result o0) = None ->
  (exists x, collaborator_calls (trace (run h ListTarget repo w2))
             = [Called (listTargets r na cfg) x])
  /\ (exists x, collaborator_calls (trace (run h Verify repo w2))
                = [Called (getTrustedTarget r na cfg) x])
  /\ (exists x, collaborator_calls (trace (run h (SignImage img) repo w2))
                = [Called (signImage r img na cfg) x])
  /\ (exists x, collaborator_calls (trace (run h (RevokeTag tag) repo w2))
                = [Called (revokeImage r tag na cfg) x])
  /\ (exists x rest,
        collaborator_calls (trace (run h (TrustPush img) repo w2))
        = Called (pushImage r img ra) x :: rest /\
        (rest = [] \/
         exists y, rest = [Called (pushTrustedReference r img na cfg) y])).
Proof.
  intros o0 cfg repo. subst o0 cfg repo.
  destruct (h _ (trust_ParseConfig configDir) w) as [[cfg err] w'] eqn:Hresp.
  rewrite (run_NewTrustedGcrRepository h _ r ra na _ _ _ _ Hresp).
  destruct err as [e|]; cbn [result fst snd]; [discriminate|]. intros _.
  set (repo := mkRepo r ra na cfg).
  split; [|split; [|split; [|split]]].
  - destruct (h _ (listTargets (ref repo) (notaryAuth repo) (config repo)) w2)
      as [[ts [e1|]] w3] eqn:Hcall;
      rewrite (run_ListTarget h _ _ _ _ _ Hcall); eexists; reflexivity.
  - destruct (h _ (getTrustedTarget (ref repo) (notaryAuth repo)
                     (config repo)) w2) as [[t [e1|]] w3] eqn:Hcall;
      rewrite (run_Verify h _ _ _ _ _ Hcall); eexists; reflexivity.
  - destruct (h _ (signImage (ref repo) img (notaryAuth repo) (config repo))
                w2) as [[e1|] w3] eqn:Hcall;
      rewrite (run_SignImage h _ _ _ _ _ Hcall); eexists; reflexivity.
  - destruct (h _ (revokeImage (ref repo) tag (notaryAuth repo)
                     (config repo)) w2) as [[e1|] w3] eqn:Hcall;
      rewrite (run_RevokeTag h _ _ _ _ _ Hcall); eexists; reflexivity.
  - destruct (h _ (pushImage (ref repo) img (registryAuth repo)) w2)
      as [[e1|] w3] eqn:Hpush.
    + rewrite (run_TrustPush_failed h _ _ _ _ _ Hpush).
      eexists. exists []. split; [reflexivity | left; reflexivity].
    + destruct (h _ (pushTrustedReference (ref repo) img (notaryAuth repo)
                       (config repo)) w3) as [err2 w4] eqn:Htrust.
      rewrite (run_TrustPush_pushed h _ _ _ _ _ _ Hpush Htrust).
      eexists. eexists. split; [reflexivity | right; eexists; reflexivity].
Qed.

Lemma constructed_adapter_routes_arguments_witness :
  exists x rest,
    collaborator_calls
      (trace (run spec_handler (TrustPush (Some sample_image))
                (fst (result
                        (run spec_handler
                           (NewTrustedGcrRepository "/etc/notary"
                              (Some sample_ref) (Some registry_cred)
                              (Some notary_cred)) tt fresh_world)))
                fresh_world))
    = Called (pushImage (Some sample_ref) (Some sample_image)
                (Some registry_cred)) x :: rest /\
    (rest = [] \/
     exists y,
       rest = [Called
                 (pushTrustedReference (Some sample_ref) (Some sample_image)
                    (Some notary_cred)
                    (fst (fst (spec_handler _
                                 (trust_ParseConfig "/etc/notary")
                                 fresh_world)))) y]).
Proof.
  apply (constructed_adapter_routes_arguments spec_handler "/etc/notary"
           (Some sample_ref) (Some registry_cred) (Some notary_cred)
           (Some sample_image) "v1" fresh_world fresh_world).
  vm_compute. reflexivity.
Defined.

(** X8. The methods do not guard against the zero value: the adapter that
    a failed NewTrustedGcrRepository returns, if used all the same, still
    delegates, with a nil reference, nil authenticators and a nil
    configuration. *)
Theorem failed_construction_adapter_delegates_nil {W : Type} (h : Handler W)
    (configDir : string) (r : iface Reference) (ra na : iface Authenticator)
    (img : iface Image) (tag : string) (w w2 : W) (e : error) :
  let o0 := run h (NewTrustedGcrRepository configDir r ra na) tt w in
  let repo := fst (result o0) in
  snd (result o0) = Some e ->
  (exists x, collaborator_calls (trace (run h ListTarget repo w2))
             = [Called (listTargets None None None) x])
  /\ (exists x, collaborator_calls (trace (run h Verify repo w2))
                = [Called (getTrustedTarget None None None) x])
  /\ (exists x, collaborator_calls (trace (run h (SignImage img) repo w2))
                = [Called (signImage None img None None) x])
  /\ (exists x, collaborator_calls (trace (run h (RevokeTag tag) repo w2))
                = [Called (revokeImage None tag None None) x])
  /\ (exists x rest,
        collaborator_calls (trace (run h (TrustPush img) repo w2))
        = Called (pushImage None img None) x :: rest).
Proof.
  intros o0 repo. subst o0 repo.
  destruct (h _ (trust_ParseConfig configDir) w) as [[cfg err] w'] eqn:Hresp.
  rewrite (run_NewTrustedGcrRepository h _ r ra na _ _ _ _ Hresp).
  destruct err as [e1|]; cbn [result fst snd]; [|discriminate]. intros _.
  set (repo := TrustedGcrRepository_zero).
  split; [|split; [|split; [|split]]].
  - destruct (h _ (listTargets (ref repo) (notaryAuth repo) (config repo)) w2)
      as [[ts [e2|]] w3] eqn:Hcall;
      rewrite (run_ListTarget h _ _ _ _ _ Hcall); eexists; reflexivity.
  - destruct (h _ (getTrustedTarget (ref repo) (notaryAuth repo)
                     (config repo)) w2) as [[t [e2|]] w3] eqn:Hcall;
      rewrite (run_Verify h _ _ _ _ _ Hcall); eexists; reflexivity.
  - destruct (h _ (signImage (ref repo) img (notaryAuth repo) (config repo))
                w2) as [[e2|] w3] eqn:Hcall;
      rewrite (run_SignImage h _ _ _ _ _ Hcall); eexists; reflexivity.
  - destruct (h _ (revokeImage (ref repo) tag (notaryAuth repo)
                     (config repo)) w2) as [[e2|] w3] eqn:Hcall;
      rewrite (run_RevokeTag h _ _ _ _ _ Hcall); eexists; reflexivity.
  - destruct (h _ (pushImage (ref repo) img (registryAuth repo)) w2)
      as [[e2|] w3] eqn:Hpush.
    + rewrite (run_TrustPush_failed h _ _ _ _ _ Hpush).
      eexists. exists []. reflexivity.
    + destruct (h _ (pushTrustedReference (ref repo) img (notaryAuth repo)
                       (config repo)) w3) as [err2 w4] eqn:Htrust.
      rewrite (run_TrustPush_pushed h _ _ _ _ _ _ Hpush Htrust).
      eexists. eexists. reflexivity.
Qed.

Lemma failed_construction_adapter_delegates_nil_witness :
  exists x,
    collaborator_calls
      (trace (run spec_handler ListTarget
                (fst (result
                        (run spec_handler
                           (NewTrustedGcrRepository "/missing"
                              (Some sample_ref) (Some registry_cred)
                              (Some notary_cred)) tt fresh_world)))
                fresh_world))
    = [Called (listTargets None None None) x].
Proof.
  apply (failed_construction_adapter_delegates_nil spec_handler "/missing"
           (Some sample_ref) (Some registry_cred) (Some notary_cred)
           (Some sample_image) "v1" fresh_world fresh_world
           (errors_New ConfigError)).
  vm_compute. reflexivity.
Defined.

(** ** The role recorder of the tests *)

Lemma go_copy_from_nil {A : Type} (dst : list A) : go_copy dst [] = (dst, 0).
Proof.
  unfold go_copy. simpl. rewrite Nat.min_0_r. reflexivity.
Qed.

Lemma serve_records (reqs : list SignTest.Request)
    (p : SignTest.passRoleRecorder) :
  SignTest.rolesCreated (snd (SignTest.serve p reqs))
    = SignTest.rolesCreated p
      ++ map SignTest.req_alias (List.filter SignTest.req_createNew reqs)
  /\ SignTest.rolesAsked (snd (SignTest.serve p reqs))
     = SignTest.rolesAsked p
       ++ map SignTest.req_alias
            (List.filter (fun q => negb (SignTest.req_createNew q)) reqs)
  /\ fst (SignTest.serve p reqs)
     = repeat (SignTest.password, false, None) (length reqs).
Proof.
  revert p. induction reqs as [|q reqs IH]; intros p.
  - simpl. rewrite !app_nil_r. repeat split.
  - simpl. unfold SignTest.retriever.
    destruct (SignTest.serve _ reqs) as [answers p2] eqn:Hserve.
    match type of Hserve with
    | SignTest.serve ?p1 _ = _ => specialize (IH p1)
    end.
    rewrite Hserve in IH. simpl in IH. destruct IH as (Hc & Ha & Hans).
    simpl. rewrite Hc, Ha, Hans.
    destruct (SignTest.req_createNew q); simpl;
      rewrite <- ?app_assoc; repeat split.
Qed.

(** X9. The recording retriever sorts the aliases it is asked about by
    kind and keeps their order: after any sequence of requests,
    rolesCreated has grown by the aliases of the createNew requests and
    rolesAsked by the aliases of the others, each in request order, so no
    alias is lost or recorded twice; every request, whatever its key name
    and attempt count, is answered with the constant passphrase, without
    giving up and without error.  After clear, only the later requests
    are on record. *)
Theorem retriever_records_by_kind (p : SignTest.passRoleRecorder)
    (reqs : list SignTest.Request) :
  let created :=
    map SignTest.req_alias (List.filter SignTest.req_createNew reqs) in
  let asked :=
    map SignTest.req_alias
      (List.filter (fun q => negb (SignTest.req_createNew q)) reqs) in
  SignTest.rolesCreated (snd (SignTest.serve p reqs))
    = SignTest.rolesCreated p ++ created
  /\ SignTest.rolesAsked (snd (SignTest.serve p reqs))
     = SignTest.rolesAsked p ++ asked
  /\ fst (SignTest.serve p reqs)
     = repeat ("passphrase", false, None) (length reqs)
  /\ length (SignTest.rolesCreated (snd (SignTest.serve p reqs)))
     + length (SignTest.rolesAsked (snd (SignTest.serve p reqs)))
     = length (SignTest.rolesCreated p) + length (SignTest.rolesAsked p)
       + length reqs
  /\ snd (SignTest.serve (SignTest.clear p) reqs)
     = SignTest.mkRecorder created asked.
Proof.
  intros created asked. subst created asked.
  destruct (serve_records reqs p) as (Hc & Ha & Hans).
  split; [exact Hc|]. split; [exact Ha|]. split; [exact Hans|]. split.
  - rewrite Hc, Ha. rewrite !length_app, !length_map.
    assert (Hsplit : forall l : list SignTest.Request,
              length (List.filter SignTest.req_createNew l)
              + length (List.filter
                          (fun q => negb (SignTest.req_createNew q)) l)
              = length l).
    { induction l as [|q l IHl]; [reflexivity|].
      simpl. destruct (SignTest.req_createNew q); simpl; lia. }
    specialize (Hsplit reqs). lia.
  - destruct (serve_records reqs (SignTest.clear p)) as (Hc' & Ha' & _).
    simpl in Hc', Ha'.
    destruct (snd (SignTest.serve (SignTest.clear p) reqs)) as [c a].
    simpl in Hc', Ha'. subst c a. reflexivity.
Qed.

(** X10. compareRolesRecorded compares nothing: both [copy] calls copy
    from the empty slice, so whatever the recorder holds and whatever is
    expected, the equality check is handed two empty slices.  The
    caller's slice and the recorder are left as they were.  The same
    holds for requireCreated and requireAsked, which only fix the flag. *)
Theorem compareRolesRecorded_compares_nothing
    (p : SignTest.passRoleRecorder) (expected : list string)
    (created : bool) :
  let c := SignTest.compareRolesRecorded p expected created in
  SignTest.cmp_useExpected c = []
  /\ SignTest.cmp_actual c = []
  /\ SignTest.cmp_expected c = expected
  /\ SignTest.cmp_recorder c = p
  /\ SignTest.requireCreated p expected
     = SignTest.mkComparison [] [] expected p
  /\ SignTest.requireAsked p expected
     = SignTest.mkComparison [] [] expected p.
Proof.
  assert (Hcmp : forall flag,
            SignTest.compareRolesRecorded p expected flag
            = SignTest.mkComparison [] [] expected p).
  { intros flag. unfold SignTest.compareRolesRecorded.
    rewrite !go_copy_from_nil. simpl.
    destruct p as [c a], flag; reflexivity. }
  intros c. subst c. unfold SignTest.requireCreated, SignTest.requireAsked.
  rewrite !Hcmp. repeat split.
Qed.

(** A recorder that saw one role created is compared with an expectation
    of two others, and the check still gets two empty slices. *)
Example requireCreated_mismatch_unseen :
  let p := snd (SignTest.serve SignTest.newRoleRecorder
                  [SignTest.mkRequest "key" "root" true 0]) in
  SignTest.rolesCreated p = ["root"] /\
  SignTest.cmp_useExpected
    (SignTest.requireCreated p ["targets"; "snapshot"]) = [] /\
  SignTest.cmp_actual
    (SignTest.requireCreated p ["targets"; "snapshot"]) = [].
Proof. vm_compute. repeat split. Qed.
